(** * QUICAltConnectionManager: a shallow embedding and its properties

    Model of iocore/net/quic/QUICAltConnectionManager.cc.  The manager owns
    a fixed array of [_nids] local alternative connection ids, a growable
    vector of ids advertised by the peer, and a FIFO of remote sequence
    numbers waiting for a RETIRE_CONNECTION_ID frame. *)

From Stdlib Require Import List PeanoNat NArith Bool Lia String.
Import ListNotations.
Open Scope N_scope.

(** ** Data *)

(** A connection id is a variable-length byte string; [QUICConnectionId::ZERO()]
    is the zero-length id. *)
Definition QUICConnectionId := list N.
Definition QUICConnectionId_ZERO : QUICConnectionId := [].

Definition cid_eqb (a b : QUICConnectionId) : bool :=
  if list_eq_dec N.eq_dec a b then true else false.

(** A stateless reset token: the default-constructed one ([{}]), one derived
    by [QUICStatelessResetToken(conn_id, instance_id)], or raw bytes received
    from the peer. *)
Inductive QUICStatelessResetToken :=
| Token_default
| Token_derived (conn_id : QUICConnectionId) (instance_id : N)
| Token_raw (bytes : list N).

(** [AltConnectionInfo] is [{seq_num, id, token, {advertised | used}}]: the last
    member is a union, read as [advertised] for local entries and as [used]
    for remote ones. *)
Record AltConnectionInfo := mkInfo {
  seq_num : N;
  id : QUICConnectionId;
  token : QUICStatelessResetToken;
  flag : bool
}.
Definition advertised (i : AltConnectionInfo) : bool := flag i.
Definition used (i : AltConnectionInfo) : bool := flag i.
Definition set_flag (b : bool) (i : AltConnectionInfo) : AltConnectionInfo :=
  mkInfo (seq_num i) (id i) (token i) b.

Inductive NetVConnectionContext := NET_VCONNECTION_IN | NET_VCONNECTION_OUT.

(** [IpEndpoint] is opaque here. *)
Definition IpEndpoint := N.

Record QUICPreferredAddress := mkPreferredAddress {
  pa_available : bool;
  pa_endpoint : IpEndpoint;
  pa_cid : QUICConnectionId;
  pa_token : QUICStatelessResetToken
}.

Inductive QUICEncryptionLevel := INITIAL | ZERO_RTT | HANDSHAKE | ONE_RTT.

Inductive QUICFrameType := NEW_CONNECTION_ID | RETIRE_CONNECTION_ID | OTHER_FRAME_TYPE (t : N).

(** The frames the manager consumes and produces. *)
Inductive QUICFrame :=
| QUICNewConnectionIdFrame (sequence : N) (connection_id : QUICConnectionId)
    (stateless_reset_token : QUICStatelessResetToken)
| QUICRetireConnectionIdFrame (seq : N)
| QUICOtherFrame (t : N).

Definition frame_type (f : QUICFrame) : QUICFrameType :=
  match f with
  | QUICNewConnectionIdFrame _ _ _ => NEW_CONNECTION_ID
  | QUICRetireConnectionIdFrame _ => RETIRE_CONNECTION_ID
  | QUICOtherFrame t => OTHER_FRAME_TYPE t
  end.

Inductive QUICTransErrorCode := PROTOCOL_VIOLATION.

Record QUICConnectionError := mkError {
  err_code : QUICTransErrorCode;
  err_msg : string;
  err_frame_type : QUICFrameType
}.

(** The members of the manager.  [_ctable] is the part of the connection
    table that maps ids to this connection.  The counter
    [_alt_quic_connection_id_seq_num] and the entries' [seq_num] are 64-bit
    unsigned integers (declared in the header, which is not part of this
    file); they are kept as unbounded [N].  The model therefore describes the
    runs that issue fewer than 2^64 local sequence numbers: past that point
    the source's [++] wraps to 0, which the model does not show. *)
Record QUICAltConnectionManager := mkManager {
  _qc_direction : NetVConnectionContext;
  _instance_id : N;
  _nids : nat;
  _alt_quic_connection_ids_local : list AltConnectionInfo;
  _alt_quic_connection_ids_remote : list AltConnectionInfo;
  _retired_seq_nums : list N;
  _need_advertise : bool;
  _alt_quic_connection_id_seq_num : N;
  _preferred_address : option QUICPreferredAddress;
  _ctable : list QUICConnectionId
}.

(** Member updates. *)
Definition set_local l m :=
  mkManager (_qc_direction m) (_instance_id m) (_nids m) l (_alt_quic_connection_ids_remote m)
    (_retired_seq_nums m) (_need_advertise m) (_alt_quic_connection_id_seq_num m)
    (_preferred_address m) (_ctable m).
Definition set_remote r m :=
  mkManager (_qc_direction m) (_instance_id m) (_nids m) (_alt_quic_connection_ids_local m) r
    (_retired_seq_nums m) (_need_advertise m) (_alt_quic_connection_id_seq_num m)
    (_preferred_address m) (_ctable m).
Definition set_retired q m :=
  mkManager (_qc_direction m) (_instance_id m) (_nids m) (_alt_quic_connection_ids_local m)
    (_alt_quic_connection_ids_remote m) q (_need_advertise m) (_alt_quic_connection_id_seq_num m)
    (_preferred_address m) (_ctable m).
Definition set_need_advertise b m :=
  mkManager (_qc_direction m) (_instance_id m) (_nids m) (_alt_quic_connection_ids_local m)
    (_alt_quic_connection_ids_remote m) (_retired_seq_nums m) b (_alt_quic_connection_id_seq_num m)
    (_preferred_address m) (_ctable m).
Definition set_preferred_address p m :=
  mkManager (_qc_direction m) (_instance_id m) (_nids m) (_alt_quic_connection_ids_local m)
    (_alt_quic_connection_ids_remote m) (_retired_seq_nums m) (_need_advertise m)
    (_alt_quic_connection_id_seq_num m) p (_ctable m).
Definition set_ctable t m :=
  mkManager (_qc_direction m) (_instance_id m) (_nids m) (_alt_quic_connection_ids_local m)
    (_alt_quic_connection_ids_remote m) (_retired_seq_nums m) (_need_advertise m)
    (_alt_quic_connection_id_seq_num m) (_preferred_address m) t.

(** [a[i] = x] on an array; the model keeps the list unchanged out of range. *)
Fixpoint set_nth {A} (i : nat) (x : A) (l : list A) : list A :=
  match l, i with
  | [], _ => []
  | _ :: t, O => x :: t
  | h :: t, S i' => h :: set_nth i' x t
  end.

(** The [for (i = 0; i < _nids; ++i)] scans over the local array. *)
Fixpoint find_seq_index (s : N) (l : list AltConnectionInfo) : option nat :=
  match l with
  | [] => None
  | e :: t => if seq_num e =? s then Some O
              else option_map S (find_seq_index s t)
  end.

Fixpoint find_unadvertised (l : list AltConnectionInfo) : option (nat * AltConnectionInfo) :=
  match l with
  | [] => None
  | e :: t => if advertised e then option_map (fun '(i, x) => (S i, x)) (find_unadvertised t)
              else Some (O, e)
  end.

Fixpoint find_by_id (c : QUICConnectionId) (l : list AltConnectionInfo) : option AltConnectionInfo :=
  match l with
  | [] => None
  | e :: t => if cid_eqb (id e) c then Some e else find_by_id c t
  end.

(** The range-for over the remote vector in [migrate_to_alt_cid]: the first
    unused entry is marked used and its id returned. *)
Fixpoint take_first_unused (l : list AltConnectionInfo)
  : option (QUICConnectionId * list AltConnectionInfo) :=
  match l with
  | [] => None
  | e :: t => if used e then option_map (fun '(c, r) => (c, e :: r)) (take_first_unused t)
              else Some (id e, set_flag true e :: t)
  end.

(** The iterator loop of [drop_cid]: the first entry with the id is erased
    and its sequence number returned. *)
Fixpoint erase_first_by_id (c : QUICConnectionId) (l : list AltConnectionInfo)
  : option (N * list AltConnectionInfo) :=
  match l with
  | [] => None
  | e :: t => if cid_eqb (id e) c then Some (seq_num e, t)
              else option_map (fun '(s, r) => (s, e :: r)) (erase_first_by_id c t)
  end.

Section Manager.

(** External primitives: [QUICConnectionId::randomize] (the id drawn when
    sequence number [n] is assigned), [_is_level_matched] and the encoded
    size of a frame, [QUICFrame::size]. *)
Variable randomize : N -> QUICConnectionId.
Variable _is_level_matched : QUICEncryptionLevel -> bool.
Variable frame_size : QUICFrame -> N.

Definition _generate_next_alt_con_info (m : QUICAltConnectionManager)
  : AltConnectionInfo * QUICAltConnectionManager :=
  let s := _alt_quic_connection_id_seq_num m + 1 in
  let conn_id := randomize s in
  let tok := Token_derived conn_id (_instance_id m) in
  (mkInfo s conn_id tok false,
   mkManager (_qc_direction m) (_instance_id m) (_nids m) (_alt_quic_connection_ids_local m)
     (_alt_quic_connection_ids_remote m) (_retired_seq_nums m) (_need_advertise m) s
     (_preferred_address m)
     (match _qc_direction m with
      | NET_VCONNECTION_IN => conn_id :: _ctable m
      | NET_VCONNECTION_OUT => _ctable m
      end)).

(** [for (i = start; i < _nids; ++i) local[i] = _generate_next_alt_con_info();] *)
Fixpoint fill_local (i : nat) (n : nat) (m : QUICAltConnectionManager) : QUICAltConnectionManager :=
  match n with
  | O => m
  | S n' =>
      let '(aci, m1) := _generate_next_alt_con_info m in
      fill_local (S i) n' (set_local (set_nth i aci (_alt_quic_connection_ids_local m1)) m1)
  end.

Definition _init_alt_connection_ids (preferred_endpoint : option IpEndpoint)
  (m : QUICAltConnectionManager) : QUICAltConnectionManager :=
  let m1 :=
    match preferred_endpoint with
    | Some ep =>
        let '(aci, m') := _generate_next_alt_con_info m in
        let aci := set_flag true aci in
        set_preferred_address (Some (mkPreferredAddress true ep (id aci) (token aci)))
          (set_local (set_nth 0 aci (_alt_quic_connection_ids_local m')) m')
    | None => m
    end in
  let start := match preferred_endpoint with Some _ => 1%nat | None => 0%nat end in
  set_need_advertise true (fill_local start (_nids m - start) m1).

Definition _update_alt_connection_id (chosen_seq_num : N) (m : QUICAltConnectionManager)
  : bool * QUICAltConnectionManager :=
  match find_seq_index chosen_seq_num (_alt_quic_connection_ids_local m) with
  | Some i =>
      let '(aci, m1) := _generate_next_alt_con_info m in
      (true, set_need_advertise true
               (set_local (set_nth i aci (_alt_quic_connection_ids_local m1)) m1))
  | None => if chosen_seq_num =? 0 then (true, m) else (false, m)
  end.

Definition _register_remote_connection_id (sequence : N) (connection_id : QUICConnectionId)
  (tok : QUICStatelessResetToken) (m : QUICAltConnectionManager)
  : option QUICConnectionError * QUICAltConnectionManager :=
  if cid_eqb connection_id QUICConnectionId_ZERO then
    (Some (mkError PROTOCOL_VIOLATION "received zero-length cid" NEW_CONNECTION_ID), m)
  else
    (None, set_remote (_alt_quic_connection_ids_remote m ++ [mkInfo sequence connection_id tok false]) m).

Definition _retire_remote_connection_id (s : N) (m : QUICAltConnectionManager)
  : option QUICConnectionError * QUICAltConnectionManager :=
  let '(ok, m1) := _update_alt_connection_id s m in
  if ok then (None, m1)
  else (Some (mkError PROTOCOL_VIOLATION "received unused sequence number" RETIRE_CONNECTION_ID), m1).

(** Any other frame type hits [ink_assert(false)], a debug-build check;
    the release build returns no error. *)
Definition handle_frame (level : QUICEncryptionLevel) (frame : QUICFrame) (m : QUICAltConnectionManager)
  : option QUICConnectionError * QUICAltConnectionManager :=
  match frame with
  | QUICNewConnectionIdFrame s c t => _register_remote_connection_id s c t m
  | QUICRetireConnectionIdFrame s => _retire_remote_connection_id s m
  | QUICOtherFrame _ => (None, m)
  end.

Definition is_ready_to_migrate (m : QUICAltConnectionManager) : bool :=
  match _alt_quic_connection_ids_remote m with
  | [] => false
  | l => existsb (fun info => negb (used info)) l
  end.

(** The client side repopulates its local ids; [_init_alt_connection_ids()]
    is called with no endpoint. *)
Definition migrate_to_alt_cid (m : QUICAltConnectionManager)
  : QUICConnectionId * QUICAltConnectionManager :=
  let m1 := match _qc_direction m with
            | NET_VCONNECTION_OUT => _init_alt_connection_ids None m
            | NET_VCONNECTION_IN => m
            end in
  match take_first_unused (_alt_quic_connection_ids_remote m1) with
  | Some (c, r) => (c, set_remote r m1)
  | None => (QUICConnectionId_ZERO, m1)
  end.

(** [migrate_to(cid, new_reset_token)]: [Some token] for [true]. *)
Definition migrate_to (cid : QUICConnectionId) (m : QUICAltConnectionManager)
  : option QUICStatelessResetToken :=
  option_map token (find_by_id cid (_alt_quic_connection_ids_local m)).

Definition drop_cid (cid : QUICConnectionId) (m : QUICAltConnectionManager) : QUICAltConnectionManager :=
  match erase_first_by_id cid (_alt_quic_connection_ids_remote m) with
  | Some (s, r) => set_remote r (set_retired (_retired_seq_nums m ++ [s]) m)
  | None => m
  end.

Definition invalidate_alt_connections (m : QUICAltConnectionManager) : QUICAltConnectionManager :=
  set_ctable (filter (fun c => negb (existsb (cid_eqb c) (map id (_alt_quic_connection_ids_local m))))
                (_ctable m)) m.

Definition will_generate_frame (level : QUICEncryptionLevel) (m : QUICAltConnectionManager) : bool :=
  if negb (_is_level_matched level) then false
  else _need_advertise m || negb (match _retired_seq_nums m with [] => true | _ => false end).

(** [None] is the null frame.  [if (auto s = front())] takes the branch only
    for a non-zero sequence number. *)
Definition generate_frame (level : QUICEncryptionLevel) (connection_credit : N)
  (maximum_frame_size : N) (m : QUICAltConnectionManager)
  : option QUICFrame * QUICAltConnectionManager :=
  if negb (_is_level_matched level) then (None, m) else
  let adv :=
    if _need_advertise m then
      match find_unadvertised (_alt_quic_connection_ids_local m) with
      | Some (i, e) =>
          let frame := QUICNewConnectionIdFrame (seq_num e) (id e) (token e) in
          if maximum_frame_size <? frame_size frame then inl (None, m)
          else inl (Some frame,
                    set_local (set_nth i (set_flag true e) (_alt_quic_connection_ids_local m)) m)
      | None => inr (set_need_advertise false m)
      end
    else inr m in
  match adv with
  | inl r => r
  | inr m1 =>
      match _retired_seq_nums m1 with
      | s :: q => if s =? 0 then (None, m1)
                  else (Some (QUICRetireConnectionIdFrame s), set_retired q m1)
      | [] => (None, m1)
      end
  end.

End Manager.

(** ** Construction

    The in-class initialisers of the header ([_need_advertise = false],
    [_alt_quic_connection_id_seq_num = 0], [_preferred_address = nullptr])
    are the starting values.  The [ats_malloc]ed local array holds [_nids]
    copies of an indeterminate value [uninit] until it is populated. *)
Definition initial_remote_entry (peer_initial_cid : QUICConnectionId) : AltConnectionInfo :=
  mkInfo 0 peer_initial_cid Token_default true.

Definition fresh_manager (direction : NetVConnectionContext) (instance_id : N) (num_alt_con : nat)
  (uninit : AltConnectionInfo) (remote : list AltConnectionInfo) : QUICAltConnectionManager :=
  mkManager direction instance_id num_alt_con (repeat uninit num_alt_con) remote [] false 0 None [].

(** The constructor taking a [QUICPreferredAddress]: the local array is not
    populated. *)
Definition new_with_preferred_address (direction : NetVConnectionContext)
  (peer_initial_cid : QUICConnectionId) (instance_id : N) (num_alt_con : nat)
  (preferred_address : QUICPreferredAddress) (uninit : AltConnectionInfo) : QUICAltConnectionManager :=
  fresh_manager direction instance_id num_alt_con uninit
    (initial_remote_entry peer_initial_cid
     :: (if pa_available preferred_address
         then [mkInfo 1 (pa_cid preferred_address) (pa_token preferred_address) false]
         else [])).

Section Construction.
Variable randomize : N -> QUICConnectionId.

(** The constructor taking an [IpEndpoint *] ([None] for [nullptr]). *)
Definition new_with_endpoint (direction : NetVConnectionContext)
  (peer_initial_cid : QUICConnectionId) (instance_id : N) (num_alt_con : nat)
  (preferred_endpoint : option IpEndpoint) (uninit : AltConnectionInfo) : QUICAltConnectionManager :=
  _init_alt_connection_ids randomize preferred_endpoint
    (fresh_manager direction instance_id num_alt_con uninit [initial_remote_entry peer_initial_cid]).
End Construction.

(** ** Calls made on a manager *)
Inductive Op :=
| OpHandleFrame (level : QUICEncryptionLevel) (frame : QUICFrame)
| OpGenerateFrame (level : QUICEncryptionLevel) (connection_credit : N) (maximum_frame_size : N)
| OpDropCid (cid : QUICConnectionId)
| OpMigrateToAltCid
| OpMigrateTo (cid : QUICConnectionId)
| OpInvalidate.

Section Run.
Variable randomize : N -> QUICConnectionId.
Variable _is_level_matched : QUICEncryptionLevel -> bool.
Variable frame_size : QUICFrame -> N.

Definition step (op : Op) (m : QUICAltConnectionManager) : QUICAltConnectionManager :=
  match op with
  | OpHandleFrame lvl f => snd (handle_frame randomize lvl f m)
  | OpGenerateFrame lvl cr mx => snd (generate_frame _is_level_matched frame_size lvl cr mx m)
  | OpDropCid c => drop_cid c m
  | OpMigrateToAltCid => snd (migrate_to_alt_cid randomize m)
  | OpMigrateTo _ => m
  | OpInvalidate => invalidate_alt_connections m
  end.

Definition run (ops : list Op) (m : QUICAltConnectionManager) : QUICAltConnectionManager :=
  fold_left (fun m op => step op m) ops m.
End Run.

(** ** A concrete configuration used by the examples *)
Definition ex_randomize (n : N) : QUICConnectionId := [N.add 16 n; 7].
Definition ex_level (l : QUICEncryptionLevel) : bool :=
  match l with ONE_RTT => true | _ => false end.
(** 1 type byte + sequence (1 byte here) + length byte + id + 16-byte token. *)
Definition ex_frame_size (f : QUICFrame) : N :=
  match f with
  | QUICNewConnectionIdFrame _ c _ => 19 + N.of_nat (List.length c)
  | QUICRetireConnectionIdFrame _ => 2
  | QUICOtherFrame _ => 1
  end.
Definition ex_uninit : AltConnectionInfo := mkInfo 0 [] Token_default false.
Definition ex_manager : QUICAltConnectionManager :=
  new_with_endpoint ex_randomize NET_VCONNECTION_IN [170] 1 2 None ex_uninit.

(** The manager of the C1 failing input below. *)
Definition c1_manager : QUICAltConnectionManager :=
  run ex_randomize ex_level ex_frame_size
    [OpGenerateFrame ONE_RTT 0 100; OpGenerateFrame ONE_RTT 0 100; OpGenerateFrame ONE_RTT 0 100;
     OpDropCid [170];
     OpHandleFrame ONE_RTT (QUICNewConnectionIdFrame 5 [187] (Token_raw [1]));
     OpDropCid [187]]
    ex_manager.

(** ** Witnesses *)

Definition ex_peer_entry : AltConnectionInfo := mkInfo 5 [187] (Token_raw [1]) false.
Definition ex_with_peer_entry : QUICAltConnectionManager :=
  snd (handle_frame ex_randomize ONE_RTT (QUICNewConnectionIdFrame 5 [187] (Token_raw [1])) ex_manager).
Definition ex_no_preferred_address : QUICPreferredAddress := mkPreferredAddress false 0 [] Token_default.

(** [ex_manager] after both local ids have been advertised and the
    pending-advertisement flag has been cleared. *)
Definition ex_idle_manager : QUICAltConnectionManager :=
  run ex_randomize ex_level ex_frame_size
    [OpGenerateFrame ONE_RTT 0 100; OpGenerateFrame ONE_RTT 0 100; OpGenerateFrame ONE_RTT 0 100]
    ex_manager.

(** [ex_manager] after both local ids have been advertised and the peer
    has sent the id [187] with sequence number 5. *)
Definition ex_retire_manager : QUICAltConnectionManager :=
  run ex_randomize ex_level ex_frame_size
    [OpGenerateFrame ONE_RTT 0 100; OpGenerateFrame ONE_RTT 0 100;
     OpHandleFrame ONE_RTT (QUICNewConnectionIdFrame 5 [187] (Token_raw [1]))]
    ex_manager.

(** ** Invariants of the local array *)

(** Sequence numbers of the local array are distinct and already issued. *)
Definition seq_inv (l : list AltConnectionInfo) (c : N) : Prop :=
  Forall (fun e => seq_num e <= c) l /\ NoDup (map seq_num l).


(** The sequence numbers [c + 1, ..., c + n] handed out by [n] generations. *)
Fixpoint range_from (c : N) (n : nat) : list N :=
  match n with
  | O => []
  | S n' => (c + 1) :: range_from (c + 1) n'
  end.

(** Every local entry was made by [_generate_next_alt_con_info]: its token is
    [QUICStatelessResetToken(id, _instance_id)]. *)
Definition token_inv (m : QUICAltConnectionManager) : Prop :=
  Forall (fun e => token e = Token_derived (id e) (_instance_id m)) (_alt_quic_connection_ids_local m).

(** On the server side every local id is in the connection table. *)
Definition registered_inv (m : QUICAltConnectionManager) : Prop :=
  _qc_direction m = NET_VCONNECTION_IN ->
  Forall (fun e => In (id e) (_ctable m)) (_alt_quic_connection_ids_local m).

Lemma In_set_nth {A} (i : nat) (x y : A) (l : list A) :
  In y (set_nth i x l) -> y = x \/ In y l.
Proof.
  revert i; induction l as [|h t IH]; intros [|i]; simpl; intros H; auto.
  - destruct H as [<-|H]; auto.
  - destruct H as [<-|H]; auto. destruct (IH i H); auto.
Qed.



Lemma nth_error_set_nth_eq {A} (i : nat) (x : A) (l : list A) :
  (i < List.length l)%nat -> nth_error (set_nth i x l) i = Some x.
Proof.
  revert i; induction l as [|h t IH]; intros [|i]; simpl; intros H; try lia; auto.
  apply IH; lia.
Qed.

Lemma nth_error_set_nth_neq {A} (i j : nat) (x : A) (l : list A) :
  i <> j -> nth_error (set_nth i x l) j = nth_error l j.
Proof.
  revert i j; induction l as [|h t IH]; intros [|i] [|j]; simpl; intros H; auto; lia.
Qed.

Lemma set_nth_app_length {A} (x u : A) (pre r : list A) :
  set_nth (List.length pre) x (pre ++ u :: r) = (pre ++ [x]) ++ r.
Proof. induction pre as [|h t IH]; simpl; [reflexivity|]. now rewrite IH. Qed.



Lemma seq_inv_mono (l : list AltConnectionInfo) (c c' : N) :
  seq_inv l c -> c <= c' -> seq_inv l c'.
Proof.
  intros [Hle Hnd] Hc. split; auto.
  eapply Forall_impl; [|exact Hle]. simpl; intros; lia.
Qed.

Section Proofs.
Variable randomize : N -> QUICConnectionId.
Variable _is_level_matched : QUICEncryptionLevel -> bool.
Variable frame_size : QUICFrame -> N.

Abbreviation gen := (_generate_next_alt_con_info randomize).
Abbreviation fill := (fill_local randomize).

Lemma fill_local_fields (n i : nat) (m : QUICAltConnectionManager) :
  let m' := fill i n m in
  _alt_quic_connection_ids_remote m' = _alt_quic_connection_ids_remote m /\
  _retired_seq_nums m' = _retired_seq_nums m /\
  _need_advertise m' = _need_advertise m /\
  _nids m' = _nids m /\ _qc_direction m' = _qc_direction m.
Proof.
  revert i m; induction n as [|n IH]; intros i m; simpl; [tauto|].
  destruct (IH (S i) (set_local (set_nth i (fst (gen m)) (_alt_quic_connection_ids_local m))
                                  (snd (gen m)))) as (H1 & H2 & H3 & H4 & H5).
  simpl in *. rewrite H1, H2, H3, H4, H5. tauto.
Qed.




Lemma find_unadvertised_Some (l : list AltConnectionInfo) (i : nat) (e : AltConnectionInfo) :
  find_unadvertised l = Some (i, e) ->
  nth_error l i = Some e /\ advertised e = false /\
  (forall j e0, (j < i)%nat -> nth_error l j = Some e0 -> advertised e0 = true).
Proof.
  revert i; induction l as [|h t IH]; intros i; simpl; [discriminate|].
  destruct (advertised h) eqn:Hh.
  - destruct (find_unadvertised t) as [[i' x]|] eqn:Ht; simpl; [|discriminate].
    intros H; inversion H; subst. destruct (IH i' eq_refl) as (H1 & H2 & H3).
    repeat split; auto. intros [|j] e0 Hj Hn; simpl in Hn.
    + now inversion Hn; subst.
    + apply (H3 j); auto; lia.
  - intros H; inversion H; subst. repeat split; auto. intros j e0 Hj; lia.
Qed.




Lemma Forall_mark (l : list AltConnectionInfo) (i : nat) (e : AltConnectionInfo) :
  Forall (fun e => advertised e = true) l ->
  Forall (fun e => advertised e = true) (set_nth i (set_flag true e) l).
Proof.
  rewrite !Forall_forall. intros H y Hy. apply In_set_nth in Hy as [->|Hy]; auto.
Qed.

Lemma find_seq_index_Some (s : N) (l : list AltConnectionInfo) (i : nat) :
  find_seq_index s l = Some i ->
  exists e, nth_error l i = Some e /\ seq_num e = s /\
    (forall j e0, (j < i)%nat -> nth_error l j = Some e0 -> seq_num e0 <> s).
Proof.
  revert i; induction l as [|h t IH]; intros i; simpl; [discriminate|].
  destruct (seq_num h =? s) eqn:Hh.
  - intros H; inversion H; subst. exists h. apply N.eqb_eq in Hh.
    repeat split; auto. intros j e0 Hj; lia.
  - destruct (find_seq_index s t) as [i'|] eqn:Ht; simpl; [|discriminate].
    intros H; inversion H; subst. destruct (IH i' eq_refl) as (e & H1 & H2 & H3).
    exists e. repeat split; auto. apply N.eqb_neq in Hh.
    intros [|j] e0 Hj Hn; simpl in Hn; [now inversion Hn; subst|].
    apply (H3 j); auto; lia.
Qed.

Lemma find_seq_index_None (s : N) (l : list AltConnectionInfo) :
  find_seq_index s l = None <-> (forall e, In e l -> seq_num e <> s).
Proof.
  induction l as [|h t IH]; simpl; [split; auto; contradiction|].
  destruct (seq_num h =? s) eqn:Hh.
  - split; [discriminate|]. intros H. apply N.eqb_eq in Hh. exfalso; apply (H h); auto.
  - apply N.eqb_neq in Hh. destruct (find_seq_index s t) eqn:Ht; simpl.
    + split; [discriminate|]. intros H. assert (Some n = None); [|discriminate].
      apply IH. intros; apply H; auto.
    + split; auto. intros _ e [<-|He]; auto. apply IH; auto.
Qed.

Lemma find_seq_index_first (s : N) (l : list AltConnectionInfo) (i : nat) (e : AltConnectionInfo) :
  nth_error l i = Some e -> seq_num e = s ->
  (forall j e0, (j < i)%nat -> nth_error l j = Some e0 -> seq_num e0 <> s) ->
  find_seq_index s l = Some i.
Proof.
  revert i; induction l as [|h t IH]; intros i Hn Hs Hb; [destruct i; discriminate|].
  destruct i as [|i]; simpl in *.
  - inversion Hn; subst. now rewrite N.eqb_refl.
  - assert ((seq_num h =? s) = false) as -> by (apply N.eqb_neq; apply (Hb O h); simpl; auto; lia).
    rewrite (IH i Hn Hs); [reflexivity|].
    intros j e0 Hj Hj0. apply (Hb (S j)); auto; lia.
Qed.








Lemma init_None_remote m :
  _alt_quic_connection_ids_remote (_init_alt_connection_ids randomize None m)
  = _alt_quic_connection_ids_remote m.
Proof.
  unfold _init_alt_connection_ids. simpl. apply (fill_local_fields (_nids m - 0) 0 m).
Qed.

Lemma take_first_unused_spec (l : list AltConnectionInfo) :
  (exists x, In x l /\ used x = false) ->
  exists pre e post, l = pre ++ e :: post /\ Forall (fun x => used x = true) pre /\
    used e = false /\ take_first_unused l = Some (id e, pre ++ set_flag true e :: post).
Proof.
  induction l as [|h t IH]; intros [x [Hx Hu]]; [destruct Hx|].
  simpl. destruct (used h) eqn:Hh.
  - destruct Hx as [<-|Hx]; [congruence|].
    destruct IH as (pre & e & post & H1 & H2 & H3 & H4); [eauto|].
    exists (h :: pre), e, post. rewrite H4. simpl. subst t. repeat split; auto.
  - exists [], h, t. repeat split; auto.
Qed.

Lemma take_first_unused_None (l : list AltConnectionInfo) :
  take_first_unused l = None -> Forall (fun x => used x = true) l.
Proof.
  induction l as [|h t IH]; simpl; [constructor|].
  destruct (used h) eqn:Hh; [|discriminate].
  destruct (take_first_unused t) as [[c r]|]; simpl; [discriminate|]. constructor; auto.
Qed.





Lemma generate_frame_remote lvl cr mx m :
  _alt_quic_connection_ids_remote (snd (generate_frame _is_level_matched frame_size lvl cr mx m))
  = _alt_quic_connection_ids_remote m.
Proof.
  unfold generate_frame. destruct (_is_level_matched lvl); simpl; auto.
  assert (forall m1, _alt_quic_connection_ids_remote (snd (match _retired_seq_nums m1 with
                 | s :: q => if s =? 0 then (None, m1)
                             else (Some (QUICRetireConnectionIdFrame s), set_retired q m1)
                 | [] => (None, m1) end)) = _alt_quic_connection_ids_remote m1) as Hr.
  { intros m1. destruct (_retired_seq_nums m1) as [|s q]; auto. destruct (s =? 0); auto. }
  destruct (_need_advertise m); [|apply Hr].
  destruct (find_unadvertised _) as [[i x]|]; [|rewrite Hr; reflexivity].
  destruct (_ <? _); reflexivity.
Qed.

(** The entry seeded for the peer's initial id stays first in the remote list
    until it is dropped. *)
Lemma initial_remote_entry_head_step peer op m rest :
  _alt_quic_connection_ids_remote m = initial_remote_entry peer :: rest ->
  op <> OpDropCid peer ->
  exists rest', _alt_quic_connection_ids_remote (step randomize _is_level_matched frame_size op m)
                = initial_remote_entry peer :: rest'.
Proof.
  intros Hm Hop. destruct op as [lvl f|lvl cr mx|c| |c|]; simpl.
  - destruct f as [s c t|s|t]; simpl; eauto.
    + unfold _register_remote_connection_id. destruct (cid_eqb c _); simpl; eauto.
      rewrite Hm. simpl. eauto.
    + unfold _retire_remote_connection_id, _update_alt_connection_id.
      destruct (find_seq_index s _) as [i|]; simpl; eauto.
      destruct (s =? 0); simpl; eauto.
  - rewrite generate_frame_remote. eauto.
  - unfold drop_cid. rewrite Hm. simpl.
    destruct (cid_eqb peer c) eqn:Hc.
    + unfold cid_eqb in Hc. destruct (list_eq_dec N.eq_dec peer c); [|discriminate].
      subst. contradiction.
    + destruct (erase_first_by_id c rest) as [[s r]|]; simpl; [eauto|]. rewrite Hm; eauto.
  - unfold migrate_to_alt_cid.
    assert (_alt_quic_connection_ids_remote (match _qc_direction m with
               | NET_VCONNECTION_OUT => _init_alt_connection_ids randomize None m
               | NET_VCONNECTION_IN => m end) = initial_remote_entry peer :: rest) as H1
      by (destruct (_qc_direction m); rewrite ?init_None_remote; auto).
    rewrite H1. simpl. destruct (take_first_unused rest) as [[c r]|]; simpl; [eauto|].
    rewrite H1; eauto.
  - eauto.
  - eauto.
Qed.

Lemma initial_remote_entry_head_run peer ops m rest :
  _alt_quic_connection_ids_remote m = initial_remote_entry peer :: rest ->
  ~ In (OpDropCid peer) ops ->
  exists rest', _alt_quic_connection_ids_remote (run randomize _is_level_matched frame_size ops m)
                = initial_remote_entry peer :: rest'.
Proof.
  revert m rest; induction ops as [|op ops IH]; intros m rest Hm Hn; simpl; eauto.
  destruct (initial_remote_entry_head_step peer op m rest Hm) as [rest' H'].
  - intros ->. apply Hn; now left.
  - eapply IH; eauto. intros H; apply Hn; now right.
Qed.

(** With every local id advertised, a non-zero number at the head of the
    retirement queue is popped into a RETIRE_CONNECTION_ID frame. *)
Lemma generate_frame_retire_nonzero lvl cr mx m s q :
  _is_level_matched lvl = true ->
  Forall (fun e => advertised e = true) (_alt_quic_connection_ids_local m) ->
  _retired_seq_nums m = s :: q -> s <> 0 ->
  fst (generate_frame _is_level_matched frame_size lvl cr mx m) = Some (QUICRetireConnectionIdFrame s) /\
  _retired_seq_nums (snd (generate_frame _is_level_matched frame_size lvl cr mx m)) = q.
Proof.
  intros Hl Hall Hq Hs. apply N.eqb_neq in Hs. unfold generate_frame. rewrite Hl. simpl.
  destruct (_need_advertise m).
  - destruct (find_unadvertised _) as [[i x]|] eqn:Hf.
    + apply find_unadvertised_Some in Hf as (Hn & Hx & _).
      rewrite Forall_forall in Hall. rewrite (Hall x) in Hx; [discriminate|].
      eapply nth_error_In; eauto.
    + simpl. rewrite Hq, Hs. split; reflexivity.
  - rewrite Hq, Hs. split; reflexivity.
Qed.

End Proofs.

Lemma Forall_set_nth {A} (P : A -> Prop) (i : nat) (x : A) (l : list A) :
  Forall P l -> P x -> Forall P (set_nth i x l).
Proof.
  intros Hl Hx. apply Forall_forall. intros y Hy.
  apply In_set_nth in Hy as [->|Hy]; auto. rewrite Forall_forall in Hl; auto.
Qed.

Lemma length_set_nth {A} (i : nat) (x : A) (l : list A) :
  List.length (set_nth i x l) = List.length l.
Proof. revert i; induction l as [|h t IH]; intros [|i]; simpl; auto. Qed.

Lemma range_from_gt (c : N) (n : nat) : Forall (fun s => c < s) (range_from c n).
Proof.
  revert c; induction n as [|n IH]; intros c; simpl; constructor; [lia|].
  eapply Forall_impl; [|apply IH]. simpl; intros; lia.
Qed.

Section MoreProofs.
Variable randomize : N -> QUICConnectionId.
Variable _is_level_matched : QUICEncryptionLevel -> bool.
Variable frame_size : QUICFrame -> N.

Abbreviation gen := (_generate_next_alt_con_info randomize).
Abbreviation fill := (fill_local randomize).
Abbreviation stp := (step randomize _is_level_matched frame_size).

Lemma fill_local_more_fields (n i : nat) (m : QUICAltConnectionManager) :
  let m' := fill i n m in
  _instance_id m' = _instance_id m /\ _preferred_address m' = _preferred_address m /\
  _qc_direction m' = _qc_direction m /\
  List.length (_alt_quic_connection_ids_local m') = List.length (_alt_quic_connection_ids_local m) /\
  (forall c, In c (_ctable m) -> In c (_ctable m')).
Proof.
  revert i m; induction n as [|n IH]; intros i m; simpl; [auto|].
  edestruct IH as (H1 & H2 & H3 & H4 & H5). simpl in *.
  rewrite H1, H2, H3, H4. simpl. rewrite length_set_nth. repeat split; auto.
  intros c Hc. apply H5. destruct (_qc_direction m); simpl; auto.
Qed.

Lemma fill_local_token_inv (n i : nat) (m : QUICAltConnectionManager) :
  token_inv m -> token_inv (fill i n m).
Proof.
  revert i m; induction n as [|n IH]; intros i m H; simpl; auto.
  apply IH. unfold token_inv in *; simpl. apply Forall_set_nth; auto.
Qed.

Lemma fill_local_registered_inv (n i : nat) (m : QUICAltConnectionManager) :
  registered_inv m -> registered_inv (fill i n m).
Proof.
  revert i m; induction n as [|n IH]; intros i m H; simpl; auto.
  apply IH. unfold registered_inv in *; simpl. intros Hd. rewrite Hd in *.
  apply Forall_set_nth; [|simpl; auto].
  eapply Forall_impl; [|exact (H eq_refl)]. simpl; auto.
Qed.

(** [n] iterations of the loop from slot [length pre] over [n] remaining
    slots replace all of them with fresh, un-advertised entries numbered
    [counter + 1 .. counter + n]. *)
Lemma fill_local_overwrite (n : nat) (pre rest : list AltConnectionInfo) (m : QUICAltConnectionManager) :
  _alt_quic_connection_ids_local m = pre ++ rest -> List.length rest = n ->
  exists fresh,
    _alt_quic_connection_ids_local (fill (List.length pre) n m) = pre ++ fresh /\
    map seq_num fresh = range_from (_alt_quic_connection_id_seq_num m) n /\
    Forall (fun e => advertised e = false) fresh /\
    _alt_quic_connection_id_seq_num (fill (List.length pre) n m)
    = _alt_quic_connection_id_seq_num m + N.of_nat n /\
    Forall (fun e => token e = Token_derived (id e) (_instance_id m)) fresh /\
    (_qc_direction m = NET_VCONNECTION_IN ->
     Forall (fun e => In (id e) (_ctable (fill (List.length pre) n m))) fresh).
Proof.
  revert pre rest m; induction n as [|n IH]; intros pre rest m Hl Hn; simpl.
  - destruct rest; [|discriminate]. exists []. rewrite Hl. repeat split; auto. lia.
  - destruct rest as [|r rest]; [discriminate|]. simpl in Hn.
    replace (S (List.length pre)) with (List.length (pre ++ [fst (gen m)]))
      by (rewrite length_app; simpl; lia).
    set (m1 := set_local (set_nth (List.length pre) (fst (gen m)) (_alt_quic_connection_ids_local m))
                 (snd (gen m))).
    edestruct (IH (pre ++ [fst (gen m)]) rest m1) as (fresh & H1 & H2 & H3 & H4 & H5 & H6).
    + subst m1. simpl. rewrite Hl. apply set_nth_app_length.
    + lia.
    + destruct (fill_local_more_fields n (List.length (pre ++ [fst (gen m)])) m1)
        as (_ & _ & _ & _ & Hct).
      exists (fst (gen m) :: fresh). subst m1. simpl in *. rewrite H1, <- app_assoc. simpl.
      repeat split; auto.
      * rewrite H2. reflexivity.
      * lia.
      * intros Hd. rewrite Hd in *. constructor; [apply Hct; simpl; auto|].
        apply H6. reflexivity.
Qed.

Lemma step_fields op m :
  _qc_direction (stp op m) = _qc_direction m /\ _instance_id (stp op m) = _instance_id m /\
  _nids (stp op m) = _nids m /\
  List.length (_alt_quic_connection_ids_local (stp op m))
  = List.length (_alt_quic_connection_ids_local m).
Proof.
  destruct op as [lvl f|lvl cr mx|c| |c|]; simpl.
  - destruct f as [s c t|s|t]; simpl; auto.
    + unfold _register_remote_connection_id. destruct (cid_eqb c _); simpl; auto.
    + unfold _retire_remote_connection_id, _update_alt_connection_id.
      destruct (find_seq_index s _) as [i|]; simpl; [rewrite length_set_nth; auto|].
      destruct (s =? 0); simpl; auto.
  - unfold generate_frame. destruct (_is_level_matched lvl); simpl; auto.
    assert (forall m1, let m2 := snd (match _retired_seq_nums m1 with
                 | s :: q => if s =? 0 then (None, m1)
                             else (Some (QUICRetireConnectionIdFrame s), set_retired q m1)
                 | [] => (None, m1) end) in
              _qc_direction m2 = _qc_direction m1 /\ _instance_id m2 = _instance_id m1 /\
              _nids m2 = _nids m1 /\
              _alt_quic_connection_ids_local m2 = _alt_quic_connection_ids_local m1) as Hr.
    { intros m1. destruct (_retired_seq_nums m1) as [|s q]; simpl; auto.
      destruct (s =? 0); simpl; auto. }
    destruct (_need_advertise m).
    + destruct (find_unadvertised _) as [[i x]|].
      * destruct (_ <? _); simpl; rewrite ?length_set_nth; auto.
      * destruct (Hr (set_need_advertise false m)) as (H1 & H2 & H3 & H4).
        rewrite H1, H2, H3, H4. auto.
    + destruct (Hr m) as (H1 & H2 & H3 & H4). rewrite H1, H2, H3, H4. auto.
  - unfold drop_cid. destruct (erase_first_by_id c _) as [[s r]|]; simpl; auto.
  - unfold migrate_to_alt_cid.
    assert (let m1 := match _qc_direction m with
               | NET_VCONNECTION_OUT => _init_alt_connection_ids randomize None m
               | NET_VCONNECTION_IN => m end in
            _qc_direction m1 = _qc_direction m /\ _instance_id m1 = _instance_id m /\
            _nids m1 = _nids m /\
            List.length (_alt_quic_connection_ids_local m1)
            = List.length (_alt_quic_connection_ids_local m)) as H.
    { destruct (_qc_direction m) eqn:Hd; simpl; auto.
      unfold _init_alt_connection_ids. simpl.
      destruct (fill_local_more_fields (_nids m - 0) 0 m) as (H1 & _ & H3 & H4 & _).
      destruct (fill_local_fields randomize (_nids m - 0) 0 m) as (_ & _ & _ & H5 & _).
      rewrite H1, H3, H4, H5, Hd. auto. }
    simpl in H. destruct (take_first_unused _) as [[c r]|]; simpl; exact H.
  - auto.
  - auto.
Qed.

Lemma fill_local_ctable_out (n i : nat) (m : QUICAltConnectionManager) :
  _qc_direction m = NET_VCONNECTION_OUT -> _ctable (fill i n m) = _ctable m.
Proof.
  revert i m; induction n as [|n IH]; intros i m Hd; simpl; auto.
  rewrite IH; simpl; rewrite Hd; auto.
Qed.

(** The result of [generate_frame] as a sequence of member updates. *)
Lemma generate_frame_shape lvl cr mx m :
  exists l b q,
    snd (generate_frame _is_level_matched frame_size lvl cr mx m)
    = set_retired q (set_need_advertise b (set_local l m)) /\
    (l = _alt_quic_connection_ids_local m \/
     exists i x, find_unadvertised (_alt_quic_connection_ids_local m) = Some (i, x) /\
       l = set_nth i (set_flag true x) (_alt_quic_connection_ids_local m)).
Proof.
  assert (forall m1 : QUICAltConnectionManager,
            set_retired (_retired_seq_nums m1) (set_need_advertise (_need_advertise m1)
              (set_local (_alt_quic_connection_ids_local m1) m1)) = m1) as Heta
    by (intros []; reflexivity).
  assert (forall b, exists q, snd (match _retired_seq_nums (set_need_advertise b m) with
                 | s :: q => if s =? 0 then (None, set_need_advertise b m)
                             else (Some (QUICRetireConnectionIdFrame s),
                                   set_retired q (set_need_advertise b m))
                 | [] => (None, set_need_advertise b m) end)
            = set_retired q (set_need_advertise b (set_local (_alt_quic_connection_ids_local m) m)))
    as Hr.
  { intros b. simpl. destruct (_retired_seq_nums m) as [|s q] eqn:Hq; simpl.
    - exists []. destruct m; simpl in *; subst; reflexivity.
    - destruct (s =? 0); [exists (s :: q) | exists q]; destruct m; simpl in *; subst; reflexivity. }
  unfold generate_frame. destruct (_is_level_matched lvl); simpl.
  2:{ exists (_alt_quic_connection_ids_local m), (_need_advertise m), (_retired_seq_nums m).
      rewrite Heta. auto. }
  destruct (_need_advertise m) eqn:Hna.
  - destruct (find_unadvertised _) as [[i x]|] eqn:Hf.
    + destruct (_ <? _); simpl.
      * exists (_alt_quic_connection_ids_local m), true, (_retired_seq_nums m).
        rewrite <- Hna, Heta. auto.
      * exists (set_nth i (set_flag true x) (_alt_quic_connection_ids_local m)), true,
          (_retired_seq_nums m).
        split; [destruct m; simpl in *; subst; reflexivity|]. right; eauto.
    + destruct (Hr false) as [q Hq]. exists (_alt_quic_connection_ids_local m), false, q. auto.
  - destruct (Hr false) as [q Hq].
    exists (_alt_quic_connection_ids_local m), false, q.
    split; [|auto]. rewrite <- Hq. f_equal. destruct m; simpl in *; subst; reflexivity.
Qed.

Lemma token_inv_step op m : token_inv m -> token_inv (stp op m).
Proof.
  intros H. destruct op as [lvl f|lvl cr mx|c| |c|]; simpl.
  - destruct f as [s c t|s|t]; simpl; auto.
    + unfold _register_remote_connection_id. destruct (cid_eqb c _); exact H.
    + unfold _retire_remote_connection_id, _update_alt_connection_id.
      destruct (find_seq_index s _) as [i|].
      * unfold token_inv in *. simpl. apply Forall_set_nth; auto.
      * destruct (s =? 0); exact H.
  - destruct (generate_frame_shape lvl cr mx m) as (l & b & q & -> & [->|(i & x & Hf & ->)]);
      [exact H|].
    apply find_unadvertised_Some in Hf as (Hn & _ & _).
    unfold token_inv in *. simpl. apply Forall_set_nth; auto.
    rewrite Forall_forall in H. apply (H x). eapply nth_error_In; eauto.
  - unfold drop_cid. destruct (erase_first_by_id c _) as [[s r]|]; exact H.
  - unfold migrate_to_alt_cid.
    assert (token_inv (match _qc_direction m with
               | NET_VCONNECTION_OUT => _init_alt_connection_ids randomize None m
               | NET_VCONNECTION_IN => m end)) as H1.
    { destruct (_qc_direction m); auto. apply (fill_local_token_inv (_nids m - 0) 0 m H). }
    destruct (take_first_unused _) as [[c r]|]; exact H1.
  - exact H.
  - exact H.
Qed.

Lemma registered_inv_step op m :
  op <> OpInvalidate -> registered_inv m -> registered_inv (stp op m).
Proof.
  intros Hop H. destruct op as [lvl f|lvl cr mx|c| |c|]; simpl.
  - destruct f as [s c t|s|t]; simpl; auto.
    + unfold _register_remote_connection_id. destruct (cid_eqb c _); exact H.
    + unfold _retire_remote_connection_id, _update_alt_connection_id.
      destruct (find_seq_index s _) as [i|].
      * unfold registered_inv in *. simpl. intros Hd. rewrite Hd in *.
        apply Forall_set_nth; [|simpl; auto].
        eapply Forall_impl; [|exact (H eq_refl)]. simpl; auto.
      * destruct (s =? 0); exact H.
  - destruct (generate_frame_shape lvl cr mx m) as (l & b & q & -> & [->|(i & x & Hf & ->)]);
      [exact H|].
    apply find_unadvertised_Some in Hf as (Hn & _ & _).
    unfold registered_inv in *. simpl. intros Hd. specialize (H Hd).
    apply Forall_set_nth; auto.
    rewrite Forall_forall in H. apply (H x). eapply nth_error_In; eauto.
  - unfold drop_cid. destruct (erase_first_by_id c _) as [[s r]|]; exact H.
  - unfold migrate_to_alt_cid.
    assert (registered_inv (match _qc_direction m with
               | NET_VCONNECTION_OUT => _init_alt_connection_ids randomize None m
               | NET_VCONNECTION_IN => m end)) as H1.
    { destruct (_qc_direction m); auto. apply (fill_local_registered_inv (_nids m - 0) 0 m H). }
    destruct (take_first_unused _) as [[c r]|]; exact H1.
  - exact H.
  - contradiction.
Qed.

Lemma ctable_out_step op m :
  _qc_direction m = NET_VCONNECTION_OUT -> _ctable m = [] -> _ctable (stp op m) = [].
Proof.
  intros Hd H. destruct op as [lvl f|lvl cr mx|c| |c|]; simpl.
  - destruct f as [s c t|s|t]; simpl; auto.
    + unfold _register_remote_connection_id. destruct (cid_eqb c _); exact H.
    + unfold _retire_remote_connection_id, _update_alt_connection_id.
      destruct (find_seq_index s _) as [i|]; simpl; [rewrite Hd; exact H|].
      destruct (s =? 0); exact H.
  - destruct (generate_frame_shape lvl cr mx m) as (l & b & q & -> & _). exact H.
  - unfold drop_cid. destruct (erase_first_by_id c _) as [[s r]|]; exact H.
  - unfold migrate_to_alt_cid. rewrite Hd. unfold _init_alt_connection_ids. simpl.
    destruct (take_first_unused _) as [[c r]|]; simpl;
      rewrite fill_local_ctable_out by exact Hd; exact H.
  - exact H.
  - unfold invalidate_alt_connections. simpl. rewrite H. reflexivity.
Qed.

Abbreviation rn := (run randomize _is_level_matched frame_size).

Lemma run_cons op ops m : rn (op :: ops) m = rn ops (stp op m).
Proof. reflexivity. Qed.

Lemma run_fields ops m :
  _qc_direction (rn ops m) = _qc_direction m /\ _instance_id (rn ops m) = _instance_id m /\
  _nids (rn ops m) = _nids m /\
  List.length (_alt_quic_connection_ids_local (rn ops m))
  = List.length (_alt_quic_connection_ids_local m).
Proof.
  revert m; induction ops as [|op ops IH]; intros m; [repeat split|].
  rewrite run_cons. destruct (IH (stp op m)) as (H1 & H2 & H3 & H4).
  destruct (step_fields op m) as (H5 & H6 & H7 & H8).
  rewrite H1, H2, H3, H4, H5, H6, H7, H8. repeat split.
Qed.

Lemma token_inv_run ops m : token_inv m -> token_inv (rn ops m).
Proof.
  revert m; induction ops as [|op ops IH]; intros m H; [exact H|].
  rewrite run_cons. apply IH, token_inv_step, H.
Qed.

Lemma registered_inv_run ops m :
  ~ In OpInvalidate ops -> registered_inv m -> registered_inv (rn ops m).
Proof.
  revert m; induction ops as [|op ops IH]; intros m Hops H; [exact H|].
  rewrite run_cons. apply IH; [intros Hin; apply Hops; right; exact Hin|].
  apply registered_inv_step; [|exact H]. intros ->. apply Hops. left; reflexivity.
Qed.

Lemma ctable_out_run ops m :
  _qc_direction m = NET_VCONNECTION_OUT -> _ctable m = [] -> _ctable (rn ops m) = [].
Proof.
  revert m; induction ops as [|op ops IH]; intros m Hd H; [exact H|].
  rewrite run_cons. apply IH; [|apply ctable_out_step; auto].
  destruct (step_fields op m) as (-> & _). exact Hd.
Qed.

(** The state built by the constructor taking an endpoint. *)
Lemma new_with_endpoint_props dir peer inst nids pe u :
  let m := new_with_endpoint randomize dir peer inst nids pe u in
  token_inv m /\ registered_inv m /\
  List.length (_alt_quic_connection_ids_local m) = nids /\ _nids m = nids /\
  _qc_direction m = dir /\ _instance_id m = inst /\
  (dir = NET_VCONNECTION_OUT -> _ctable m = []).
Proof.
  unfold new_with_endpoint, _init_alt_connection_ids, fresh_manager.
  destruct pe as [ep|].
  - destruct nids as [|k]; simpl.
    + unfold token_inv, registered_inv. simpl. repeat split; auto.
      intros ->. reflexivity.
    + set (m0 := mkManager dir inst (S k) (repeat u (S k)) [initial_remote_entry peer] [] false 0 None
                   []).
      set (m1 := set_preferred_address _ _).
      destruct (fill_local_overwrite (S k - 1) [set_flag true (fst (gen m0))] (repeat u k) m1)
        as (fresh & H1 & H2 & H3 & H4 & H5 & H6); [reflexivity|rewrite repeat_length; lia|].
      destruct (fill_local_more_fields (S k - 1) 1 m1) as (F1 & F2 & F3 & F4 & F5).
      destruct (fill_local_fields randomize (S k - 1) 1 m1) as (_ & _ & _ & F6 & _).
      simpl in *. unfold token_inv, registered_inv. simpl.
      rewrite H1, F1, F3, F6. rewrite H1 in F4. simpl in F4. rewrite repeat_length in F4.
      repeat split; auto.
      * intros Hd. constructor; [apply F5; simpl; rewrite Hd; simpl; auto|].
        apply H6. simpl. exact Hd.
      * intros ->. rewrite fill_local_ctable_out; reflexivity.
  - simpl.
    set (m0 := mkManager dir inst nids (repeat u nids) [initial_remote_entry peer] [] false 0 None
                 []).
    destruct (fill_local_overwrite (nids - 0) [] (repeat u nids) m0)
      as (fresh & H1 & H2 & H3 & H4 & H5 & H6); [reflexivity|rewrite repeat_length; lia|].
    destruct (fill_local_more_fields (nids - 0) 0 m0) as (F1 & F2 & F3 & F4 & F5).
    destruct (fill_local_fields randomize (nids - 0) 0 m0) as (_ & _ & _ & F6 & _).
    simpl in *. unfold token_inv, registered_inv. simpl.
    rewrite H1, F1, F3, F6. rewrite H1 in F4. simpl in F4. rewrite repeat_length in F4.
    repeat split; auto.
    + intros ->. rewrite fill_local_ctable_out; reflexivity.
Qed.

(** Everything reached from the constructor taking an endpoint. *)
Lemma reachable_props dir peer inst nids pe u ops :
  let m := rn ops (new_with_endpoint randomize dir peer inst nids pe u) in
  token_inv m /\ List.length (_alt_quic_connection_ids_local m) = nids /\ _nids m = nids /\
  _qc_direction m = dir /\ _instance_id m = inst.
Proof.
  destruct (new_with_endpoint_props dir peer inst nids pe u) as (H1 & _ & H3 & H4 & H5 & H6 & _).
  destruct (run_fields ops (new_with_endpoint randomize dir peer inst nids pe u))
    as (R1 & R2 & R3 & R4).
  simpl. rewrite R1, R2, R3, R4. repeat split; auto. apply token_inv_run; auto.
Qed.

End MoreProofs.

Lemma cid_eqb_true (a b : QUICConnectionId) : cid_eqb a b = true <-> a = b.
Proof. unfold cid_eqb. destruct (list_eq_dec N.eq_dec a b); split; congruence. Qed.

Lemma cid_eqb_false (a b : QUICConnectionId) : a <> b -> cid_eqb a b = false.
Proof. unfold cid_eqb. destruct (list_eq_dec N.eq_dec a b); congruence. Qed.

Lemma erase_first_by_id_absent (c : QUICConnectionId) (l : list AltConnectionInfo) :
  (forall e, In e l -> id e <> c) -> erase_first_by_id c l = None.
Proof.
  induction l as [|h t IH]; intros H; simpl; auto.
  rewrite cid_eqb_false by (apply H; left; reflexivity).
  rewrite IH; auto. intros e He; apply H; right; exact He.
Qed.

Lemma erase_first_by_id_split (c : QUICConnectionId) (pre post : list AltConnectionInfo)
  (e : AltConnectionInfo) :
  id e = c -> Forall (fun x => id x <> c) pre ->
  erase_first_by_id c (pre ++ e :: post) = Some (seq_num e, pre ++ post).
Proof.
  intros He Hpre. induction Hpre as [|x pre Hx Hpre IH]; simpl.
  - rewrite (proj2 (cid_eqb_true (id e) c) He). reflexivity.
  - rewrite cid_eqb_false by exact Hx. rewrite IH. reflexivity.
Qed.

Lemma find_by_id_found (c : QUICConnectionId) (l : list AltConnectionInfo) :
  In c (map id l) -> exists e, find_by_id c l = Some e /\ In e l /\ id e = c.
Proof.
  induction l as [|h t IH]; simpl; [contradiction|]. intros H.
  destruct (cid_eqb (id h) c) eqn:Hc.
  - exists h. apply cid_eqb_true in Hc. auto.
  - destruct H as [H|H]; [apply (proj2 (cid_eqb_true _ _)) in H; congruence|].
    destruct (IH H) as (e & H1 & H2 & H3). exists e. auto.
Qed.

Lemma find_by_id_absent (c : QUICConnectionId) (l : list AltConnectionInfo) :
  ~ In c (map id l) -> find_by_id c l = None.
Proof.
  induction l as [|h t IH]; simpl; auto. intros H.
  rewrite cid_eqb_false by (intros E; apply H; left; exact E). apply IH. auto.
Qed.

Lemma take_first_unused_all_used (l : list AltConnectionInfo) :
  existsb (fun info => negb (used info)) l = false -> take_first_unused l = None.
Proof.
  induction l as [|h t IH]; simpl; auto.
  destruct (used h); simpl; [intros H; rewrite IH; auto|discriminate].
Qed.

Lemma existsb_cid_eqb (c : QUICConnectionId) (l : list QUICConnectionId) :
  existsb (cid_eqb c) l = true <-> In c l.
Proof.
  rewrite existsb_exists. split.
  - intros (x & Hx & Hc). apply cid_eqb_true in Hc. subst x. exact Hx.
  - intros H. exists c. split; [exact H|]. apply cid_eqb_true. reflexivity.
Qed.

(** ** Properties of the specification *)

(** C4: an inbound NEW_CONNECTION_ID frame with a zero-length connection id
    yields a PROTOCOL_VIOLATION error for frame type NEW_CONNECTION_ID and
    leaves the remote list unchanged; any other frame yields no error and
    appends exactly one unused entry carrying the frame's sequence number,
    id and token at the end of the remote list. *)
Theorem handle_new_connection_id_frame :
  forall randomize lvl s c t m,
  let r := handle_frame randomize lvl (QUICNewConnectionIdFrame s c t) m in
  (List.length c = 0%nat ->
     fst r = Some (mkError PROTOCOL_VIOLATION "received zero-length cid" NEW_CONNECTION_ID) /\
     _alt_quic_connection_ids_remote (snd r) = _alt_quic_connection_ids_remote m) /\
  (List.length c <> 0%nat ->
     fst r = None /\
     _alt_quic_connection_ids_remote (snd r)
     = _alt_quic_connection_ids_remote m ++ [mkInfo s c t false]).
Proof.
  intros randomize lvl s c t m r. subst r. simpl.
  unfold _register_remote_connection_id.
  destruct c as [|b c]; simpl; split; intros H; try (exfalso; simpl in H; lia); auto.
Qed.

(** C5: for an inbound RETIRE_CONNECTION_ID frame naming [s]: if a local slot
    holds [s], the first such slot is regenerated with a fresh, un-advertised
    entry of sequence number counter + 1, the pending-advertisement flag is
    raised and no error is returned; if no slot holds [s] and [s = 0], the call
    succeeds and changes nothing; otherwise it returns a PROTOCOL_VIOLATION
    error for frame type RETIRE_CONNECTION_ID and changes nothing. *)
Theorem handle_retire_connection_id_frame :
  forall randomize lvl s m,
  let r := handle_frame randomize lvl (QUICRetireConnectionIdFrame s) m in
  let local := _alt_quic_connection_ids_local m in
  (forall i e, nth_error local i = Some e -> seq_num e = s ->
     (forall j e0, (j < i)%nat -> nth_error local j = Some e0 -> seq_num e0 <> s) ->
     let aci := fst (_generate_next_alt_con_info randomize m) in
     fst r = None /\
     _alt_quic_connection_ids_local (snd r) = set_nth i aci local /\
     seq_num aci = _alt_quic_connection_id_seq_num m + 1 /\ advertised aci = false /\
     _need_advertise (snd r) = true) /\
  ((forall e, In e local -> seq_num e <> s) -> s = 0 -> r = (None, m)) /\
  ((forall e, In e local -> seq_num e <> s) -> s <> 0 ->
     r = (Some (mkError PROTOCOL_VIOLATION "received unused sequence number" RETIRE_CONNECTION_ID), m)).
Proof.
  intros randomize lvl s m r local. subst r local. simpl.
  unfold _retire_remote_connection_id, _update_alt_connection_id.
  split; [|split].
  - intros i0 e Hn Hs Hb. rewrite (find_seq_index_first s _ i0 e Hn Hs Hb). simpl.
    repeat split.
  - intros Hnone ->. apply find_seq_index_None in Hnone. rewrite Hnone. reflexivity.
  - intros Hnone Hs. apply find_seq_index_None in Hnone. rewrite Hnone.
    apply N.eqb_neq in Hs. rewrite Hs. reflexivity.
Qed.

(** C6: whenever some remote entry is unused, [migrate_to_alt_cid] returns the
    id of the first unused entry in insertion order, and the remote list after
    the call differs from the one before only in that entry's used flag, now
    true. *)
Theorem migrate_to_alt_cid_first_unused :
  forall randomize m,
  (exists x, In x (_alt_quic_connection_ids_remote m) /\ used x = false) ->
  exists pre e post,
    _alt_quic_connection_ids_remote m = pre ++ e :: post /\
    Forall (fun x => used x = true) pre /\ used e = false /\
    fst (migrate_to_alt_cid randomize m) = id e /\
    _alt_quic_connection_ids_remote (snd (migrate_to_alt_cid randomize m))
    = pre ++ set_flag true e :: post.
Proof.
  intros randomize m Hex.
  destruct (take_first_unused_spec _ Hex) as (pre & e & post & H1 & H2 & H3 & H4).
  exists pre, e, post. repeat split; auto; unfold migrate_to_alt_cid;
    destruct (_qc_direction m); rewrite ?init_None_remote, H4; reflexivity.
Qed.

(** C9: [is_ready_to_migrate] is true exactly when some remote entry is
    unused; in particular it is false on an empty remote list. *)
Theorem is_ready_to_migrate_iff :
  forall m,
  (is_ready_to_migrate m = true <->
     exists e, In e (_alt_quic_connection_ids_remote m) /\ used e = false) /\
  (_alt_quic_connection_ids_remote m = [] -> is_ready_to_migrate m = false).
Proof.
  intros m. unfold is_ready_to_migrate. split.
  - destruct (_alt_quic_connection_ids_remote m) as [|h t].
    + split; [discriminate|]. intros [e [[] _]].
    + rewrite existsb_exists. split; intros [e [He Hu]]; exists e; split; auto.
      * now apply negb_true_iff in Hu.
      * now rewrite Hu.
  - intros ->. reflexivity.
Qed.





(** C10: the remote entry seeded by both constructors for the peer's initial
    id has sequence number 0 and is already marked used; with no preferred
    address the manager is not ready to migrate right after construction; and
    as long as that entry has not been dropped it stays first in the remote
    list and [migrate_to_alt_cid] returns the id of an unused entry behind it,
    never that entry. *)
Theorem initial_remote_entry_never_selected :
  forall randomize lm fs dir peer inst nids pa pe u,
  let m1 := new_with_preferred_address dir peer inst nids pa u in
  let m2 := new_with_endpoint randomize dir peer inst nids pe u in
  let seed := initial_remote_entry peer in
  seq_num seed = 0 /\ id seed = peer /\ used seed = true /\
  (exists rest, _alt_quic_connection_ids_remote m1 = seed :: rest) /\
  _alt_quic_connection_ids_remote m2 = [seed] /\
  (pa_available pa = false -> is_ready_to_migrate m1 = false) /\
  is_ready_to_migrate m2 = false /\
  (forall m0 ops, m0 = m1 \/ m0 = m2 -> ~ In (OpDropCid peer) ops ->
     let m := run randomize lm fs ops m0 in
     exists rest, _alt_quic_connection_ids_remote m = seed :: rest /\
       (is_ready_to_migrate m = true ->
          exists e, In e rest /\ used e = false /\
            fst (migrate_to_alt_cid randomize m) = id e /\
            exists rest', _alt_quic_connection_ids_remote (snd (migrate_to_alt_cid randomize m))
                          = seed :: rest')).
Proof.
  intros randomize lm fs dir peer inst nids pa pe u m1 m2 seed.
  assert (_alt_quic_connection_ids_remote m2 = [seed]) as Hm2.
  { subst m2. unfold new_with_endpoint, _init_alt_connection_ids. simpl.
    rewrite (proj1 (fill_local_fields randomize _ _ _)).
    destruct pe; reflexivity. }
  split; [reflexivity|]. split; [reflexivity|]. split; [reflexivity|].
  split; [eexists; reflexivity|]. split; [exact Hm2|].
  split; [subst m1; unfold is_ready_to_migrate; simpl; intros ->; reflexivity|].
  split; [unfold is_ready_to_migrate; rewrite Hm2; reflexivity|].
  intros m0 ops Hm0 Hn m.
  assert (exists rest0, _alt_quic_connection_ids_remote m0 = seed :: rest0) as [rest0 H0]
    by (destruct Hm0 as [->| ->]; [subst m1; eexists; reflexivity | rewrite Hm2; eauto]).
  destruct (initial_remote_entry_head_run randomize lm fs peer ops m0 rest0 H0 Hn) as [rest Hr].
  fold m in Hr. exists rest. split; [exact Hr|].
  intros Hready. apply is_ready_to_migrate_iff in Hready.
  rewrite Hr in Hready. destruct Hready as [x [[<-|Hx] Hu]]; [discriminate|].
  destruct (take_first_unused_spec rest (ex_intro _ x (conj Hx Hu)))
    as (pre & e & post & -> & Hpre & He & Ht).
  exists e. split; [apply in_or_app; right; now left|]. split; [exact He|].
  unfold migrate_to_alt_cid.
  assert (_alt_quic_connection_ids_remote (match _qc_direction m with
             | NET_VCONNECTION_OUT => _init_alt_connection_ids randomize None m
             | NET_VCONNECTION_IN => m end) = seed :: pre ++ e :: post) as H1
    by (destruct (_qc_direction m); rewrite ?init_None_remote; auto).
  rewrite H1. simpl. rewrite Ht. simpl. split; [reflexivity|]. eexists; reflexivity.
Qed.

(** C1 (failing input): [ex_manager] advertises both of its ids, then the
    peer's initial id (remote sequence number 0) is dropped, the peer
    advertises id [187] with sequence number 5 and that id is dropped too.
    The queue is then [0; 5] and [will_generate_frame] reports work, but
    [generate_frame] returns no frame and leaves the manager unchanged:
    [if (auto s = front())] is false for 0, so 0 is never popped and every
    later poll repeats this, so neither 0 nor 5 is ever sent. *)
Theorem generate_frame_stalls_on_retired_seq0 :
  _retired_seq_nums c1_manager = [0; 5] /\
  Forall (fun e => advertised e = true) (_alt_quic_connection_ids_local c1_manager) /\
  will_generate_frame ex_level ONE_RTT c1_manager = true /\
  forall mx, generate_frame ex_level ex_frame_size ONE_RTT 0 mx c1_manager = (None, c1_manager).
Proof.
  split; [vm_compute; reflexivity|]. split; [vm_compute; repeat constructor|].
  split; [vm_compute; reflexivity|].
  intros mx. vm_compute. reflexivity.
Qed.

(** ** Examples *)

Example ex_manager_local :
  map (fun e => (seq_num e, advertised e)) (_alt_quic_connection_ids_local ex_manager)
  = [(1, false); (2, false)] /\ _need_advertise ex_manager = true.
Proof. split; reflexivity. Qed.

Example ex_generate_twice :
  let '(f1, m1) := generate_frame ex_level ex_frame_size ONE_RTT 0 100 ex_manager in
  let '(f2, m2) := generate_frame ex_level ex_frame_size ONE_RTT 0 100 m1 in
  let '(f3, m3) := generate_frame ex_level ex_frame_size ONE_RTT 0 100 m2 in
  f1 = Some (QUICNewConnectionIdFrame 1 [17; 7] (Token_derived [17; 7] 1)) /\
  f2 = Some (QUICNewConnectionIdFrame 2 [18; 7] (Token_derived [18; 7] 1)) /\
  f3 = None /\ _need_advertise m3 = false.
Proof. vm_compute. repeat split. Qed.

(** ** Witnesses of the theorems with hypotheses *)

Lemma migrate_to_alt_cid_first_unused_witness :
  (exists x, In x (_alt_quic_connection_ids_remote ex_with_peer_entry) /\ used x = false) /\
  exists pre e post,
    _alt_quic_connection_ids_remote ex_with_peer_entry = pre ++ e :: post /\
    Forall (fun x => used x = true) pre /\ used e = false /\
    fst (migrate_to_alt_cid ex_randomize ex_with_peer_entry) = id e /\
    _alt_quic_connection_ids_remote (snd (migrate_to_alt_cid ex_randomize ex_with_peer_entry))
    = pre ++ set_flag true e :: post.
Proof.
  assert (exists x, In x (_alt_quic_connection_ids_remote ex_with_peer_entry) /\ used x = false) as H
    by (exists ex_peer_entry; split; [vm_compute; right; left; reflexivity | reflexivity]).
  split; [exact H|]. exact (migrate_to_alt_cid_first_unused ex_randomize ex_with_peer_entry H).
Defined.



(** ** Further properties of the code *)

(** X1: when [will_generate_frame] answers false, [generate_frame] returns
    the null frame and changes nothing. *)
Theorem generate_frame_idle :
  forall _is_level_matched frame_size lvl cr mx m,
  will_generate_frame _is_level_matched lvl m = false ->
  generate_frame _is_level_matched frame_size lvl cr mx m = (None, m).
Proof.
  intros lm fs lvl cr mx m. unfold will_generate_frame, generate_frame.
  destruct (lm lvl); simpl; [|reflexivity].
  destruct (_need_advertise m); simpl; [discriminate|].
  destruct (_retired_seq_nums m); simpl; [reflexivity|discriminate].
Qed.

(** X2: once every local id is advertised and no retirement is pending,
    dropping a remote id whose sequence number is not 0 makes the next
    [generate_frame] at a matched level emit RETIRE_CONNECTION_ID for that
    number, leaving the queue empty and the entry erased from the remote list. *)
Theorem drop_cid_then_generate_retire_frame :
  forall _is_level_matched frame_size lvl cr mx m pre e post,
  _is_level_matched lvl = true ->
  Forall (fun x => advertised x = true) (_alt_quic_connection_ids_local m) ->
  _retired_seq_nums m = [] ->
  _alt_quic_connection_ids_remote m = pre ++ e :: post ->
  Forall (fun x => id x <> id e) pre ->
  seq_num e <> 0 ->
  fst (generate_frame _is_level_matched frame_size lvl cr mx (drop_cid (id e) m))
  = Some (QUICRetireConnectionIdFrame (seq_num e)) /\
  _retired_seq_nums (snd (generate_frame _is_level_matched frame_size lvl cr mx (drop_cid (id e) m)))
  = [] /\
  _alt_quic_connection_ids_remote
    (snd (generate_frame _is_level_matched frame_size lvl cr mx (drop_cid (id e) m)))
  = pre ++ post.
Proof.
  intros lm fs lvl cr mx m pre e post Hl Hall Hq Hr Hpre Hs.
  assert (drop_cid (id e) m = set_remote (pre ++ post) (set_retired [seq_num e] m)) as Hd.
  { unfold drop_cid. rewrite Hr, (erase_first_by_id_split (id e) pre post e eq_refl Hpre), Hq.
    reflexivity. }
  rewrite Hd.
  destruct (generate_frame_retire_nonzero lm fs lvl cr mx
              (set_remote (pre ++ post) (set_retired [seq_num e] m)) (seq_num e) [] Hl Hall
              eq_refl Hs) as [F1 F2].
  split; [exact F1|split; [exact F2|]]. rewrite generate_frame_remote. reflexivity.
Qed.

(** X3: [drop_cid] on an id absent from the remote list changes nothing;
    otherwise it erases the first remote entry with that id, queues that
    entry's sequence number at the back of the retirement queue, and leaves
    the local array and the advertisement flag alone. *)
Theorem drop_cid_first_match :
  forall c m,
  ((forall e, In e (_alt_quic_connection_ids_remote m) -> id e <> c) -> drop_cid c m = m) /\
  (forall pre e post,
     _alt_quic_connection_ids_remote m = pre ++ e :: post -> id e = c ->
     Forall (fun x => id x <> c) pre ->
     _alt_quic_connection_ids_remote (drop_cid c m) = pre ++ post /\
     _retired_seq_nums (drop_cid c m) = _retired_seq_nums m ++ [seq_num e] /\
     _alt_quic_connection_ids_local (drop_cid c m) = _alt_quic_connection_ids_local m /\
     _need_advertise (drop_cid c m) = _need_advertise m).
Proof.
  intros c m. unfold drop_cid. split.
  - intros H. rewrite erase_first_by_id_absent by exact H. reflexivity.
  - intros pre e post Hr He Hpre. rewrite Hr, (erase_first_by_id_split c pre post e He Hpre).
    repeat split.
Qed.

(** X4: when the manager is not ready to migrate, [migrate_to_alt_cid]
    returns the zero-length id and leaves the remote list unchanged, on
    either side of the connection. *)
Theorem migrate_to_alt_cid_not_ready :
  forall randomize m,
  is_ready_to_migrate m = false ->
  fst (migrate_to_alt_cid randomize m) = QUICConnectionId_ZERO /\
  _alt_quic_connection_ids_remote (snd (migrate_to_alt_cid randomize m))
  = _alt_quic_connection_ids_remote m.
Proof.
  intros randomize m H. unfold migrate_to_alt_cid.
  assert (_alt_quic_connection_ids_remote
            (match _qc_direction m with
             | NET_VCONNECTION_OUT => _init_alt_connection_ids randomize None m
             | NET_VCONNECTION_IN => m end) = _alt_quic_connection_ids_remote m) as Hr
    by (destruct (_qc_direction m); [reflexivity|apply init_None_remote]).
  rewrite Hr, take_first_unused_all_used.
  - split; [reflexivity|exact Hr].
  - unfold is_ready_to_migrate in H. destruct (_alt_quic_connection_ids_remote m); [reflexivity|exact H].
Qed.

(** X5: in any state reached from the constructor taking an endpoint,
    [migrate_to] succeeds exactly for the ids of the local array and then
    yields the token derived from that id and the instance id. *)
Theorem migrate_to_resolves_local_cid :
  forall randomize _is_level_matched frame_size dir peer inst nids pe u ops c,
  let m := run randomize _is_level_matched frame_size ops
             (new_with_endpoint randomize dir peer inst nids pe u) in
  (In c (map id (_alt_quic_connection_ids_local m)) -> migrate_to c m = Some (Token_derived c inst)) /\
  (~ In c (map id (_alt_quic_connection_ids_local m)) -> migrate_to c m = None).
Proof.
  intros randomize lm fs dir peer inst nids pe u ops c. cbv zeta.
  pose proof (reachable_props randomize lm fs dir peer inst nids pe u ops) as P. cbv zeta in P.
  destruct P as (Ht & _ & _ & _ & Hi). unfold token_inv in Ht. rewrite Forall_forall in Ht.
  unfold migrate_to. split.
  - intros H. destruct (find_by_id_found c _ H) as (e & -> & He & Hc). simpl.
    rewrite (Ht e He), Hc, Hi. reflexivity.
  - intros H. rewrite find_by_id_absent by exact H. reflexivity.
Qed.

(** X6: on the server side, as long as [invalidate_alt_connections] has not
    been called, every local id is registered in the connection table;
    [invalidate_alt_connections] then removes exactly the local ids from the
    table and keeps every other entry. *)
Theorem invalidate_alt_connections_server :
  forall randomize _is_level_matched frame_size peer inst nids pe u ops,
  ~ In OpInvalidate ops ->
  let m := run randomize _is_level_matched frame_size ops
             (new_with_endpoint randomize NET_VCONNECTION_IN peer inst nids pe u) in
  Forall (fun e => In (id e) (_ctable m)) (_alt_quic_connection_ids_local m) /\
  (forall c, In c (_ctable (invalidate_alt_connections m)) <->
             In c (_ctable m) /\ ~ In c (map id (_alt_quic_connection_ids_local m))).
Proof.
  intros randomize lm fs peer inst nids pe u ops Hops. cbv zeta.
  pose proof (new_with_endpoint_props randomize NET_VCONNECTION_IN peer inst nids pe u) as P.
  cbv zeta in P. destruct P as (_ & Hreg & _ & _ & Hd & _ & _).
  split.
  - pose proof (registered_inv_run randomize lm fs ops _ Hops Hreg) as R.
    unfold registered_inv in R. apply R.
    destruct (run_fields randomize lm fs ops (new_with_endpoint randomize NET_VCONNECTION_IN
                peer inst nids pe u)) as (-> & _).
    exact Hd.
  - intros c. unfold invalidate_alt_connections. simpl. rewrite filter_In, negb_true_iff.
    split; intros [H1 H2]; split; auto.
    + intros Hin. apply existsb_cid_eqb in Hin. congruence.
    + destruct (existsb _ _) eqn:E; auto. apply existsb_cid_eqb in E. contradiction.
Qed.

(** X7: on the client side the manager never inserts an id into the
    connection table, whichever constructor built it and whatever calls
    follow. *)
Theorem client_connection_table_untouched :
  forall randomize _is_level_matched frame_size peer inst nids pa pe u ops,
  _ctable (run randomize _is_level_matched frame_size ops
             (new_with_preferred_address NET_VCONNECTION_OUT peer inst nids pa u)) = [] /\
  _ctable (run randomize _is_level_matched frame_size ops
             (new_with_endpoint randomize NET_VCONNECTION_OUT peer inst nids pe u)) = [].
Proof.
  intros randomize lm fs peer inst nids pa pe u ops.
  pose proof (new_with_endpoint_props randomize NET_VCONNECTION_OUT peer inst nids pe u) as P.
  cbv zeta in P. destruct P as (_ & _ & _ & _ & Hd & _ & Hc).
  split; apply ctable_out_run; auto.
Qed.

(** X8: the constructor taking no endpoint fills every slot of the local
    array with un-advertised ids numbered 1 to [num_alt_con], raises the
    advertisement flag, sets no preferred address, queues no retirement and
    seeds the remote list with the peer's initial id only. *)
Theorem new_with_endpoint_initial_state :
  forall randomize dir peer inst nids u,
  let m := new_with_endpoint randomize dir peer inst nids None u in
  map seq_num (_alt_quic_connection_ids_local m) = range_from 0 nids /\
  Forall (fun e => advertised e = false) (_alt_quic_connection_ids_local m) /\
  _need_advertise m = true /\ _alt_quic_connection_id_seq_num m = N.of_nat nids /\
  _preferred_address m = None /\ _retired_seq_nums m = [] /\
  _alt_quic_connection_ids_remote m = [initial_remote_entry peer].
Proof.
  intros randomize dir peer inst nids u. cbv zeta.
  unfold new_with_endpoint, _init_alt_connection_ids, fresh_manager. simpl.
  set (m0 := mkManager dir inst nids (repeat u nids) [initial_remote_entry peer] [] false 0 None []).
  destruct (fill_local_overwrite randomize (nids - 0) [] (repeat u nids) m0)
    as (fresh & H1 & H2 & H3 & H4 & _ & _); [reflexivity|rewrite repeat_length; lia|].
  destruct (fill_local_more_fields randomize (nids - 0) 0 m0) as (_ & F2 & _).
  destruct (fill_local_fields randomize (nids - 0) 0 m0) as (F3 & F4 & _).
  simpl in *. rewrite Nat.sub_0_r in *. rewrite H1, H4, F2, F3, F4. simpl. rewrite H2.
  repeat split; auto.
Qed.

(** X9: the constructor taking an endpoint, with at least one slot, puts an
    id numbered 1 in slot 0, already marked advertised and published as the
    preferred address together with its derived token; the other slots get
    un-advertised ids numbered 2 to [num_alt_con], and the advertisement flag
    is raised. *)
Theorem new_with_endpoint_preferred_state :
  forall randomize dir peer inst k ep u,
  let m := new_with_endpoint randomize dir peer inst (S k) (Some ep) u in
  exists e rest,
    _alt_quic_connection_ids_local m = e :: rest /\ seq_num e = 1 /\ advertised e = true /\
    token e = Token_derived (id e) inst /\
    _preferred_address m = Some (mkPreferredAddress true ep (id e) (token e)) /\
    map seq_num rest = range_from 1 k /\ Forall (fun x => advertised x = false) rest /\
    _need_advertise m = true /\ _alt_quic_connection_id_seq_num m = N.of_nat (S k) /\
    _retired_seq_nums m = [] /\ _alt_quic_connection_ids_remote m = [initial_remote_entry peer].
Proof.
  intros randomize dir peer inst k ep u. cbv zeta.
  unfold new_with_endpoint, _init_alt_connection_ids, fresh_manager. simpl.
  set (m0 := mkManager dir inst (S k) (repeat u (S k)) [initial_remote_entry peer] [] false 0 None
               []).
  set (m1 := set_preferred_address _ _).
  destruct (fill_local_overwrite randomize (k - 0) [set_flag true (fst (_generate_next_alt_con_info randomize m0))]
              (repeat u k) m1)
    as (fresh & H1 & H2 & H3 & H4 & _ & _); [reflexivity|rewrite repeat_length; lia|].
  destruct (fill_local_more_fields randomize (k - 0) 1 m1) as (_ & F2 & _).
  destruct (fill_local_fields randomize (k - 0) 1 m1) as (F3 & F4 & _).
  simpl in *. rewrite Nat.sub_0_r in *. rewrite H1, H4, F2, F3, F4.
  eexists _, fresh. repeat split; auto.
  change (1 + N.of_nat k = N.of_nat (S k)). lia.
Qed.

(** X10: on the client side, in any state reached from the constructor
    taking an endpoint, [migrate_to_alt_cid] replaces the whole local array
    with [num_alt_con] fresh un-advertised ids, numbered right after the
    last number issued before, and raises the advertisement flag. *)
Theorem migrate_to_alt_cid_client_regenerates :
  forall randomize _is_level_matched frame_size peer inst nids pe u ops,
  let m := run randomize _is_level_matched frame_size ops
             (new_with_endpoint randomize NET_VCONNECTION_OUT peer inst nids pe u) in
  let m' := snd (migrate_to_alt_cid randomize m) in
  map seq_num (_alt_quic_connection_ids_local m') = range_from (_alt_quic_connection_id_seq_num m) nids /\
  Forall (fun e => advertised e = false) (_alt_quic_connection_ids_local m') /\
  _need_advertise m' = true /\
  _alt_quic_connection_id_seq_num m' = _alt_quic_connection_id_seq_num m + N.of_nat nids.
Proof.
  intros randomize lm fs peer inst nids pe u ops. cbv zeta.
  pose proof (reachable_props randomize lm fs NET_VCONNECTION_OUT peer inst nids pe u ops) as P.
  cbv zeta in P.
  set (m := run randomize lm fs ops (new_with_endpoint randomize NET_VCONNECTION_OUT peer inst nids pe u))
    in *.
  destruct P as (_ & Hl & Hn & Hd & _).
  destruct (fill_local_overwrite randomize (_nids m - 0) [] (_alt_quic_connection_ids_local m) m)
    as (fresh & H1 & H2 & H3 & H4 & _ & _); [reflexivity|lia|].
  unfold migrate_to_alt_cid. rewrite Hd. unfold _init_alt_connection_ids. simpl in *.
  rewrite Hn, Nat.sub_0_r in *.
  destruct (take_first_unused _) as [[c r]|]; simpl; rewrite H1, H4; repeat split; auto.
Qed.

(** X11: a manager built from a preferred address is ready to migrate
    exactly when the address is available, and then [migrate_to_alt_cid]
    returns the preferred address's connection id. *)
Theorem new_with_preferred_address_migration :
  forall randomize dir peer inst nids pa u,
  let m := new_with_preferred_address dir peer inst nids pa u in
  is_ready_to_migrate m = pa_available pa /\
  (pa_available pa = true -> fst (migrate_to_alt_cid randomize m) = pa_cid pa).
Proof.
  intros randomize dir peer inst nids pa u. cbv zeta.
  unfold new_with_preferred_address, fresh_manager.
  destruct (pa_available pa); split; try reflexivity; try discriminate.
  intros _. unfold migrate_to_alt_cid. destruct dir; cbn [_qc_direction]; [reflexivity|].
  rewrite init_None_remote. reflexivity.
Qed.

(** ** Witnesses of the further properties *)

Lemma generate_frame_idle_witness :
  generate_frame ex_level ex_frame_size ONE_RTT 0 100 ex_idle_manager = (None, ex_idle_manager).
Proof. apply generate_frame_idle. vm_compute. reflexivity. Defined.

Lemma drop_cid_then_generate_retire_frame_witness :
  fst (generate_frame ex_level ex_frame_size ONE_RTT 0 100 (drop_cid (id ex_peer_entry) ex_retire_manager))
  = Some (QUICRetireConnectionIdFrame (seq_num ex_peer_entry)) /\
  _retired_seq_nums
    (snd (generate_frame ex_level ex_frame_size ONE_RTT 0 100 (drop_cid (id ex_peer_entry) ex_retire_manager)))
  = [] /\
  _alt_quic_connection_ids_remote
    (snd (generate_frame ex_level ex_frame_size ONE_RTT 0 100 (drop_cid (id ex_peer_entry) ex_retire_manager)))
  = [initial_remote_entry [170]].
Proof.
  apply (drop_cid_then_generate_retire_frame ex_level ex_frame_size ONE_RTT 0 100 ex_retire_manager
           [initial_remote_entry [170]] ex_peer_entry []).
  - reflexivity.
  - vm_compute. repeat constructor.
  - vm_compute. reflexivity.
  - vm_compute. reflexivity.
  - simpl. constructor; [discriminate|constructor].
  - simpl. lia.
Defined.

Lemma migrate_to_alt_cid_not_ready_witness :
  fst (migrate_to_alt_cid ex_randomize ex_manager) = QUICConnectionId_ZERO /\
  _alt_quic_connection_ids_remote (snd (migrate_to_alt_cid ex_randomize ex_manager))
  = _alt_quic_connection_ids_remote ex_manager.
Proof. apply migrate_to_alt_cid_not_ready. vm_compute. reflexivity. Defined.

Lemma invalidate_alt_connections_server_witness :
  Forall (fun e => In (id e) (_ctable ex_manager)) (_alt_quic_connection_ids_local ex_manager) /\
  (forall c, In c (_ctable (invalidate_alt_connections ex_manager)) <->
             In c (_ctable ex_manager) /\ ~ In c (map id (_alt_quic_connection_ids_local ex_manager))).
Proof.
  apply (invalidate_alt_connections_server ex_randomize ex_level ex_frame_size [170] 1 2 None ex_uninit []).
  simpl. intros H. exact H.
Defined.
